(** * StreamAudioPlayer: streaming playback of Linear16 PCM chunks

    A shallow embedding of [StreamAudioPlayer] (stream-audio-player.ts):
    the PCM decoder, the buffer queue, the look-ahead scheduler, the
    player state machine and the event notifier, followed by the
    properties established about them.

    Conventions of the embedding.
    - JavaScript numbers that carry times, durations, sample rates and
      normalised samples are rationals ([Q]).  A 16-bit sample divided by
      32768 is exactly representable in a Float32, so the decoder's
      samples are exact.
    - The platform objects the class calls into ([atob], typed arrays,
      [AudioContext], [AudioBuffer], [EventTarget]) are modelled from
      their standards, as far as the class uses them.
    - The device clock does not move while a call or a callback runs; it
      moves between them ([Tick]).
    - An [async] method is one atomic step of the control thread, except
      [reset], which is split at its [await] on [close()]: that is the
      only window in which the state [resetting] can be observed.  The
      device's [resume()], [suspend()] and [close()] always complete.
    - A thrown exception (a rejected promise for the [async] methods) is
      the [Throw] case of [Result], or the [thrown] field of [Outcome]. *)

From Stdlib Require Import ZArith QArith Qminmax List Bool String Ascii Lia.
Import ListNotations.

Local Open Scope Z_scope.

(** ** Exceptions *)

(** What the code, or the platform under it, throws. *)
Inductive Thrown : Type :=
| Error (message : string)       (* throw new Error(message) *)
| RangeError                     (* typed-array constructor and set *)
| DOMException (name : string).  (* atob, createBuffer *)

Inductive Result (A : Type) : Type :=
| Normal (a : A)
| Throw (e : Thrown).
Arguments Normal {A} a.
Arguments Throw {A} e.

Definition bind {A B : Type} (r : Result A) (k : A -> Result B) : Result B :=
  match r with
  | Normal a => k a
  | Throw e => Throw e
  end.

Notation "x <- r ;; k" := (bind r (fun x => k))
  (at level 61, r at next level, right associativity).

(** The error taxonomy of the design, as seen by a caller of [addChunk]. *)
Inductive ErrorKind : Type := DecodeError | InvalidStateError.

Definition msgResetting : string := "Cannot add chunk while resetting".
Definition msgNoContext : string := "AudioContext not initialized".

(** [addChunk] throws its own [Error] when resetting; every other exception
    leaving it comes out of the decoder. *)
Definition addChunkErrorKind (e : Thrown) : ErrorKind :=
  match e with
  | Error m => if String.eqb m msgResetting then InvalidStateError else DecodeError
  | _ => DecodeError
  end.

(** ** The platform *)

Module Platform.

(** *** [atob]: forgiving base64 decoding, to a binary string given by its
    char codes *)

Definition isAsciiWhitespace (c : ascii) : bool :=
  let n := Z.of_N (N_of_ascii c) in
  (n =? 9) || (n =? 10) || (n =? 12) || (n =? 13) || (n =? 32).

Definition base64Value (c : ascii) : option Z :=
  let n := Z.of_N (N_of_ascii c) in
  if (65 <=? n) && (n <=? 90) then Some (n - 65)
  else if (97 <=? n) && (n <=? 122) then Some (n - 71)
  else if (48 <=? n) && (n <=? 57) then Some (n + 4)
  else if n =? 43 then Some 62
  else if n =? 47 then Some 63
  else None.

Definition isEquals (c : ascii) : bool := Z.of_N (N_of_ascii c) =? 61.

(** One or two trailing [=] are dropped when the length is a multiple of 4. *)
Definition stripPadding (data : list ascii) : list ascii :=
  if (Nat.modulo (List.length data) 4 =? 0)%nat then
    match rev data with
    | c1 :: c2 :: r =>
        if isEquals c1 then (if isEquals c2 then rev r else rev (c2 :: r))
        else data
    | _ => data
    end
  else data.

Fixpoint sextets (data : list ascii) : option (list Z) :=
  match data with
  | [] => Some []
  | c :: r =>
      match base64Value c, sextets r with
      | Some v, Some vs => Some (v :: vs)
      | _, _ => None
      end
  end.

Definition byteAt (n : Z) (shift : Z) : Z := Z.land (Z.shiftr n shift) 255.

(** Four sextets give three bytes; a tail of three gives two bytes and a
    tail of two gives one, the unused low bits being discarded. *)
Fixpoint decodeGroups (vs : list Z) : list Z :=
  match vs with
  | a :: b :: c :: d :: r =>
      let n := Z.lor (Z.lor (Z.lor (Z.shiftl a 18) (Z.shiftl b 12)) (Z.shiftl c 6)) d in
      byteAt n 16 :: byteAt n 8 :: byteAt n 0 :: decodeGroups r
  | [a; b; c] =>
      let n := Z.shiftr (Z.lor (Z.lor (Z.shiftl a 12) (Z.shiftl b 6)) c) 2 in
      [byteAt n 8; byteAt n 0]
  | [a; b] =>
      let n := Z.shiftr (Z.lor (Z.shiftl a 6) b) 4 in
      [byteAt n 0]
  | _ => []
  end.

Definition atob (base64Data : string) : Result (list Z) :=
  let data := filter (fun c => negb (isAsciiWhitespace c)) (list_ascii_of_string base64Data) in
  let data := stripPadding data in
  if (Nat.modulo (List.length data) 4 =? 1)%nat then Throw (DOMException "InvalidCharacterError")
  else match sextets data with
       | Some vs => Normal (decodeGroups vs)
       | None => Throw (DOMException "InvalidCharacterError")
       end.

(** *** Typed arrays *)

(** [bytes[i] = binaryString.charCodeAt(i)] on a [Uint8Array]: the store
    keeps the value modulo 256. *)
Definition toUint8 (c : Z) : Z := c mod 256.

Definition toInt16 (u : Z) : Z := if Z.testbit u 15 then u - 65536 else u.

Fixpoint int16Elements (bytes : list Z) : list Z :=
  match bytes with
  | lo :: hi :: r => toInt16 (Z.lor lo (Z.shiftl hi 8)) :: int16Elements r
  | _ => []
  end.

(** [new Int16Array(buffer)]: a view of the whole buffer, little-endian; a
    byte length that is not a multiple of 2 is a [RangeError]. *)
Definition newInt16Array (bytes : list Z) : Result (list Z) :=
  if Nat.even (List.length bytes) then Normal (int16Elements bytes)
  else Throw RangeError.

(** [target.set(source)] on a typed array. *)
Definition typedArraySet (target source : list Q) : Result (list Q) :=
  if (List.length target <? List.length source)%nat then Throw RangeError
  else Normal (source ++ skipn (List.length source) target).

End Platform.

(** ** The audio device *)

(** The states of a context that has not been closed; the player drops a
    context in the step in which its [close()] resolves. *)
Inductive ContextState : Type := suspended | running.

(** An [AudioContext], reduced to what the player reads and changes. *)
Record AudioContext : Type := mkAudioContext {
  ctxState : ContextState;
  currentTime : Q
}.

Record AudioBuffer : Type := mkAudioBuffer {
  numberOfChannels : nat;
  bufLength : nat;          (* AudioBuffer.length, in sample-frames *)
  sampleRate : Q;
  channelData : list Q      (* getChannelData(0) *)
}.

(** [AudioBuffer.duration]: the length in sample-frames over the rate. *)
Definition duration (b : AudioBuffer) : Q :=
  inject_Z (Z.of_nat (bufLength b)) / sampleRate b.

(** An [AudioBufferSourceNode] that has been started.  [nodeId] stands for
    the identity of the JavaScript object. *)
Record SourceNode : Type := mkSourceNode {
  nodeId : nat;
  buffer : AudioBuffer;
  startTime : Q             (* the argument of source.start() *)
}.

(** ** The event notifier *)

Record Listener : Type := mkListener {
  callback : nat;           (* identity of the listener function *)
  capture : bool;
  once : bool
}.

Record ListenerOptions : Type := mkOptions {
  optCapture : bool;
  optOnce : bool
}.

Definition defaultOptions : ListenerOptions := mkOptions false false.

Module EventTarget.

Definition t : Type := list Listener.

Definition sameListener (cb : nat) (cap : bool) (l : Listener) : bool :=
  (callback l =? cb)%nat && Bool.eqb (capture l) cap.

(** A [null] listener is ignored, and so is one already registered with the
    same callback and capture flag. *)
Definition addEventListener (et : t) (listener : option nat) (o : ListenerOptions) : t :=
  match listener with
  | None => et
  | Some cb =>
      if existsb (sameListener cb (optCapture o)) et then et
      else et ++ [mkListener cb (optCapture o) (optOnce o)]
  end.

Definition removeEventListener (et : t) (listener : option nat) (o : ListenerOptions) : t :=
  match listener with
  | None => et
  | Some cb => filter (fun l => negb (sameListener cb (optCapture o) l)) et
  end.

(** The target has no ancestors: its capturing listeners run first, then the
    others, each group in registration order. *)
Definition invokedBy (et : t) : list nat :=
  map callback (filter capture et) ++ map callback (filter (fun l => negb (capture l)) et).

(** [dispatchEvent]: the listener list afterwards (those registered with
    [once] are gone) and the callbacks invoked. *)
Definition dispatchEvent (et : t) : t * list nat :=
  (filter (fun l => negb (once l)) et, invokedBy et).

End EventTarget.

(** ** The player *)

Inductive PlayerState : Type := idle | playing | paused | ended | resetting.

Definition PlayerState_eqb (a b : PlayerState) : bool :=
  match a, b with
  | idle, idle | playing, playing | paused, paused
  | ended, ended | resetting, resetting => true
  | _, _ => false
  end.

Record Player : Type := mkPlayer {
  audioContext : option AudioContext;
  audioBufferQueue : list AudioBuffer;
  internalState : PlayerState;
  nextStartTime : Q;
  scheduledBufferSources : list SourceNode;
  eventTarget : EventTarget.t;
  nodeCount : nat           (* source nodes created so far: the next identity *)
}.

Definition setAudioContext (c : option AudioContext) (p : Player) : Player :=
  mkPlayer c (audioBufferQueue p) (internalState p) (nextStartTime p)
           (scheduledBufferSources p) (eventTarget p) (nodeCount p).

Definition setAudioBufferQueue (q : list AudioBuffer) (p : Player) : Player :=
  mkPlayer (audioContext p) q (internalState p) (nextStartTime p)
           (scheduledBufferSources p) (eventTarget p) (nodeCount p).

Definition setInternalState (s : PlayerState) (p : Player) : Player :=
  mkPlayer (audioContext p) (audioBufferQueue p) s (nextStartTime p)
           (scheduledBufferSources p) (eventTarget p) (nodeCount p).

Definition setNextStartTime (t : Q) (p : Player) : Player :=
  mkPlayer (audioContext p) (audioBufferQueue p) (internalState p) t
           (scheduledBufferSources p) (eventTarget p) (nodeCount p).

Definition setScheduledBufferSources (l : list SourceNode) (p : Player) : Player :=
  mkPlayer (audioContext p) (audioBufferQueue p) (internalState p) (nextStartTime p)
           l (eventTarget p) (nodeCount p).

Definition setEventTarget (et : EventTarget.t) (p : Player) : Player :=
  mkPlayer (audioContext p) (audioBufferQueue p) (internalState p) (nextStartTime p)
           (scheduledBufferSources p) et (nodeCount p).

(** What one call, or one callback, did: the player afterwards, the
    exception it ended with if any, the number of [ended] events it
    dispatched and the listener callbacks those invoked, in order. *)
Record Outcome : Type := mkOutcome {
  after : Player;
  thrown : option Thrown;
  dispatched : nat;
  invoked : list nat
}.

Definition done (p : Player) : Outcome := mkOutcome p None 0%nat [].
Definition failed (p : Player) (e : Thrown) : Outcome := mkOutcome p (Some e) 0%nat [].

Section Device.

(** The nominal range of sample rates of the device's [createBuffer]. *)
Variables minSampleRate maxSampleRate : positive.

Definition supportedSampleRate (rate : Q) : bool :=
  Qle_bool (inject_Z (Zpos minSampleRate)) rate && Qle_bool rate (inject_Z (Zpos maxSampleRate)).

(** [BaseAudioContext.createBuffer]: a silent buffer, or [NotSupportedError]
    when the channel count or the length is zero or the rate is outside
    the nominal range. *)
Definition createBuffer (channels len : nat) (rate : Q) : Result AudioBuffer :=
  if (1 <=? channels)%nat && (channels <=? 32)%nat && (1 <=? len)%nat && supportedSampleRate rate
  then Normal (mkAudioBuffer channels len rate (repeat 0%Q len))
  else Throw (DOMException "NotSupportedError").

(** [new AudioContext()]: the time starts at 0; whether the context starts
    running or suspended is the platform's choice, [fresh]. *)
Definition initAudioContext (fresh : ContextState) (p : Player) : Player :=
  match audioContext p with
  | None => setAudioContext (Some (mkAudioContext fresh 0%Q)) p
  | Some _ => p
  end.

Definition newPlayer (fresh : ContextState) : Player :=
  setEventTarget []
    (initAudioContext fresh (mkPlayer None [] idle 0%Q [] [] 0%nat)).

(** *** PCM decoder *)

Definition convertBase64ToAudioBuffer (p : Player) (base64Data : string) (rate : Q)
  : Result AudioBuffer :=
  match audioContext p with
  | None => Throw (Error msgNoContext)
  | Some _ =>
      binaryString <- Platform.atob base64Data ;;
      let bytes := map Platform.toUint8 binaryString in
      int16Array <- Platform.newInt16Array bytes ;;
      let float32Array := map (fun s => inject_Z s / 32768)%Q int16Array in
      audioBuffer <- createBuffer 1 (List.length float32Array) rate ;;
      data <- Platform.typedArraySet (channelData audioBuffer) float32Array ;;
      Normal (mkAudioBuffer (numberOfChannels audioBuffer) (bufLength audioBuffer)
                            (sampleRate audioBuffer) data)
  end.

(** *** Buffer queue *)

Definition addChunk (base64Data : string) (rate : Q) (p : Player) : Outcome :=
  if PlayerState_eqb (internalState p) resetting then failed p (Error msgResetting)
  else match convertBase64ToAudioBuffer p base64Data rate with
       | Throw e => failed p e
       | Normal audioBuffer =>
           done (setAudioBufferQueue (audioBufferQueue p ++ [audioBuffer]) p)
       end.

(** *** Scheduler *)

(** [scheduleNextBufferSource] calls itself once per queued buffer;
    [depth] bounds the calls and is the queue length at the entry. *)
Fixpoint scheduleLoop (depth : nat) (p : Player) : Player :=
  match depth with
  | O => p
  | S depth' =>
      match audioContext p, audioBufferQueue p with
      | Some ctx, audioBuffer :: rest =>
          if PlayerState_eqb (internalState p) playing then
            let start := Qmax (nextStartTime p) (currentTime ctx) in
            let source := mkSourceNode (nodeCount p) audioBuffer start in
            let p' :=
              mkPlayer (audioContext p) rest (internalState p)
                       (start + duration audioBuffer)%Q
                       (scheduledBufferSources p ++ [source])
                       (eventTarget p) (S (nodeCount p)) in
            match rest with
            | [] => p'
            | _ :: _ => scheduleLoop depth' p'
            end
          else p
      | _, _ => p
      end
  end.

Definition scheduleNextBufferSource (p : Player) : Player :=
  scheduleLoop (List.length (audioBufferQueue p)) p.

Fixpoint indexOf (id : nat) (l : list SourceNode) : option nat :=
  match l with
  | [] => None
  | s :: r => if (nodeId s =? id)%nat then Some O else option_map S (indexOf id r)
  end.

Definition splice1 {A : Type} (index : nat) (l : list A) : list A :=
  firstn index l ++ skipn (S index) l.

Definition dispatchEnded (p : Player) : Outcome :=
  let '(et, cbs) := EventTarget.dispatchEvent (eventTarget p) in
  mkOutcome (setEventTarget et p) None 1%nat cbs.

(** The [onended] callback of the source node [id]. *)
Definition onended (id : nat) (p : Player) : Outcome :=
  if PlayerState_eqb (internalState p) resetting then done p
  else
    let p1 :=
      match indexOf id (scheduledBufferSources p) with
      | Some index => setScheduledBufferSources (splice1 index (scheduledBufferSources p)) p
      | None => p
      end in
    match scheduledBufferSources p1, audioBufferQueue p1 with
    | [], [] => dispatchEnded (setInternalState ended p1)
    | _, [] => done p1
    | _, _ :: _ => done (scheduleNextBufferSource p1)
    end.

(** *** State machine *)

Definition resumeContext (ctx : AudioContext) : AudioContext :=
  match ctxState ctx with
  | suspended => mkAudioContext running (currentTime ctx)
  | _ => ctx
  end.

Definition play (p : Player) : Outcome :=
  match audioContext p with
  | None => failed p (Error msgNoContext)
  | Some ctx =>
      if PlayerState_eqb (internalState p) playing then done p
      else
        let p1 := setInternalState playing p in
        let ctx1 := resumeContext ctx in
        let p2 := setAudioContext (Some ctx1) p1 in
        match scheduledBufferSources p2, audioBufferQueue p2 with
        | [], _ :: _ => done (scheduleNextBufferSource (setNextStartTime (currentTime ctx1) p2))
        | _, _ => done p2
        end
  end.

Definition suspendContext (ctx : AudioContext) : AudioContext :=
  match ctxState ctx with
  | running => mkAudioContext suspended (currentTime ctx)
  | _ => ctx
  end.

Definition pause (p : Player) : Outcome :=
  if negb (PlayerState_eqb (internalState p) playing) then done p
  else match audioContext p with
       | None => failed p (Error msgNoContext)
       | Some ctx =>
           done (setAudioContext (Some (suspendContext ctx)) (setInternalState paused p))
       end.

(** [reset] up to its [await this.audioContext.close()]: every scheduled
    source is stopped and forgotten. *)
Definition resetBegin (p : Player) : Player :=
  setScheduledBufferSources [] (setInternalState resetting p).

(** [reset] from the point where [close()] has resolved. *)
Definition resetEnd (fresh : ContextState) (p : Player) : Player :=
  let p1 := setAudioContext None p in
  let p2 := initAudioContext fresh p1 in
  setInternalState idle
    (setEventTarget [] (setNextStartTime 0%Q (setAudioBufferQueue [] p2))).

(** A [reset] that nothing interleaves with. *)
Definition reset (fresh : ContextState) (p : Player) : Player :=
  resetEnd fresh (resetBegin p).

Definition addEventListener (listener : option nat) (o : ListenerOptions) (p : Player) : Player :=
  setEventTarget (EventTarget.addEventListener (eventTarget p) listener o) p.

Definition removeEventListener (listener : option nat) (o : ListenerOptions) (p : Player) : Player :=
  setEventTarget (EventTarget.removeEventListener (eventTarget p) listener o) p.

End Device.

(** ** Executions *)

(** The inputs of the control thread: the calls of the public interface
    and what the device delivers.  [ResetBegin] and [ResetEnd] are the two
    halves of one [reset()] call; other inputs may come between them. *)
Inductive Event : Type :=
| AddChunk (base64Data : string) (rate : Q)
| Play
| Pause
| ResetBegin
| ResetEnd (fresh : ContextState)
| AddEventListener (listener : option nat) (o : ListenerOptions)
| RemoveEventListener (listener : option nat) (o : ListenerOptions)
| Ended (id : nat)                 (* the device fires onended of a source *)
| Tick (n : N) (d : positive).     (* the device clock advances by n/d *)

Definition advance (n : N) (d : positive) (p : Player) : Player :=
  match audioContext p with
  | Some ctx =>
      match ctxState ctx with
      | running =>
          setAudioContext
            (Some (mkAudioContext running (currentTime ctx + (Z.of_N n # d))%Q)) p
      | _ => p
      end
  | None => p
  end.

Section Executions.

Variables minSampleRate maxSampleRate : positive.

Definition step (e : Event) (p : Player) : Outcome :=
  match e with
  | AddChunk base64Data rate => addChunk minSampleRate maxSampleRate base64Data rate p
  | Play => play p
  | Pause => pause p
  | ResetBegin => done (resetBegin p)
  | ResetEnd fresh => done (resetEnd fresh p)
  | AddEventListener l o => done (addEventListener l o p)
  | RemoveEventListener l o => done (removeEventListener l o p)
  | Ended id => onended id p
  | Tick n d => done (advance n d p)
  end.

Fixpoint run (evs : list Event) (p : Player) : Player :=
  match evs with
  | [] => p
  | e :: r => run r (after (step e p))
  end.

(** The listener callbacks invoked along an execution, in order. *)
Fixpoint invocations (evs : list Event) (p : Player) : list nat :=
  match evs with
  | [] => []
  | e :: r => invoked (step e p) ++ invocations r (after (step e p))
  end.

(** The number of [ended] events dispatched along an execution. *)
Fixpoint emissions (evs : list Event) (p : Player) : nat :=
  match evs with
  | [] => O
  | e :: r => (dispatched (step e p) + emissions r (after (step e p)))%nat
  end.

(** Every [ResetEnd] completes a [reset()] that has begun. *)
Fixpoint balanced (pending : nat) (evs : list Event) : bool :=
  match evs with
  | [] => true
  | ResetBegin :: r => balanced (S pending) r
  | ResetEnd _ :: r =>
      match pending with
      | O => false
      | S k => balanced k r
      end
  | _ :: r => balanced pending r
  end.

(** The states a player can be in: those at the end of an execution from a
    newly constructed player.  The device is left free as to when it
    delivers its events. *)
Definition reachable (p : Player) : Prop :=
  exists fresh evs, balanced 0 evs = true /\ p = run evs (newPlayer fresh).

(** *** Predicates of the statements *)

(** A buffer as [createBuffer] makes them. *)
Definition validBuffer (b : AudioBuffer) : Prop :=
  (1 <= bufLength b)%nat /\ supportedSampleRate minSampleRate maxSampleRate (sampleRate b) = true.

(** The source nodes of [p'] that were created after [p]. *)
Definition scheduledSince (p p' : Player) : list SourceNode :=
  filter (fun s => (nodeCount p <=? nodeId s)%nat) (scheduledBufferSources p').

(** Each source starts where the one before it ends. *)
Definition gapless (l : list SourceNode) : Prop :=
  forall i s s',
    nth_error l i = Some s -> nth_error l (S i) = Some s' ->
    startTime s' = (startTime s + duration (buffer s))%Q.

End Executions.

(** ** Reference descriptions used by the statements *)

Definition isByte (x : Z) : Prop := 0 <= x < 256.

(** A 16-bit little-endian two's complement integer, arithmetically. *)
Definition int16LE (lo hi : Z) : Z := (lo + 256 * hi + 32768) mod 65536 - 32768.

(** What one drain pass submits to the device: the buffers of the queue in
    order, numbered from [id], the first at [max next now]. *)
Fixpoint plan (id : nat) (next now : Q) (queue : list AudioBuffer) : list SourceNode :=
  match queue with
  | [] => []
  | b :: r =>
      let start := Qmax next now in
      mkSourceNode id b start :: plan (S id) (start + duration b)%Q now r
  end.

(** The value of [nextStartTime] at the end of that pass. *)
Fixpoint planEnd (next now : Q) (queue : list AudioBuffer) : Q :=
  match queue with
  | [] => next
  | b :: r => planEnd (Qmax next now + duration b)%Q now r
  end.

(** The device completes only sources that are in flight when it does. *)
Fixpoint inFlightOnly (minSampleRate maxSampleRate : positive)
         (evs : list Event) (p : Player) : Prop :=
  match evs with
  | [] => True
  | e :: r =>
      match e with
      | Ended id => indexOf id (scheduledBufferSources p) <> None
      | _ => True
      end /\ inFlightOnly minSampleRate maxSampleRate r
               (after (step minSampleRate maxSampleRate e p))
  end.

(** The invariant of the executions: queued buffers are as [createBuffer]
    makes them, and the identities of the sources in flight are used up. *)
Definition invariant (minSampleRate maxSampleRate : positive) (p : Player) : Prop :=
  Forall (validBuffer minSampleRate maxSampleRate) (audioBufferQueue p) /\
  Forall (fun s => (nodeId s < nodeCount p)%nat) (scheduledBufferSources p).

(** ** Well-formedness of buffers and of player states *)

(** A normalised sample. *)
Definition normalised (s : Q) : Prop := (-1 <= s)%Q /\ (s < 1)%Q.

(** A buffer as the decoder makes them: mono, not empty, holding as many
    samples as its length says, at a rate the device supports, every
    sample normalised. *)
Definition wellFormedBuffer (minSampleRate maxSampleRate : positive) (b : AudioBuffer) : Prop :=
  numberOfChannels b = 1%nat /\
  (1 <= bufLength b)%nat /\
  List.length (channelData b) = bufLength b /\
  supportedSampleRate minSampleRate maxSampleRate (sampleRate b) = true /\
  Forall normalised (channelData b).

(** How the player state and the device state go together. *)
Definition coherent (p : Player) : Prop :=
  (exists ctx, audioContext p = Some ctx /\
     (internalState p = playing -> ctxState ctx = running) /\
     (internalState p = paused -> ctxState ctx = suspended)) /\
  (internalState p = ended -> scheduledBufferSources p = []) /\
  (internalState p = idle -> nextStartTime p = 0%Q).

(** ** Sample chunks and executions *)

Module Sample.

(** A device with the range of rates every implementation supports. *)
Definition minRate : positive := 8000.
Definition maxRate : positive := 96000.

Definition rate16k : Q := 16000.

(** One sample, 0. *)
Definition oneSample : string := "AAA=".
(** Two samples, 0 and 32767. *)
Definition twoSamples : string := "AAD/fw==".
(** Four samples: 0, 32767, -32768, -1. *)
Definition fourSamples : string := "AAD/fwCA//8=".
(** Three bytes: one sample and a half. *)
Definition threeBytes : string := "AAAA".

Definition exec (evs : list Event) (fresh : ContextState) : Player :=
  run minRate maxRate evs (newPlayer fresh).

(** Three chunks queued on a new player. *)
Definition queued : Player :=
  exec [AddChunk twoSamples rate16k; AddChunk oneSample rate16k;
        AddChunk fourSamples rate16k] suspended.

(** Playing one two-sample buffer, a one-sample buffer waiting. *)
Definition midPlaying : Player :=
  exec [AddChunk twoSamples rate16k; Play; AddChunk oneSample rate16k] running.

(** The same player once [reset()] has begun. *)
Definition midReset : Player :=
  exec [AddChunk twoSamples rate16k; Play; AddChunk oneSample rate16k; ResetBegin] running.

(** Paused after the only buffer has been rendered, its completion not yet
    delivered. *)
Definition pausedLate : Player :=
  exec [AddChunk oneSample rate16k; Play; Tick 3 1000; Pause] running.

(** Played through, then given one more chunk. *)
Definition endedWithChunk : Player :=
  exec [AddChunk oneSample rate16k; Play; Tick 3 1000; Ended 0;
        AddChunk twoSamples rate16k] running.

(** Half a second of silence at 16 kHz. *)
Definition halfSecond : AudioBuffer :=
  mkAudioBuffer 1 (80 * 100) rate16k (repeat 0%Q (80 * 100)).

(** A new player at device time 0 with three such buffers queued. *)
Definition threeQueued : Player :=
  setAudioBufferQueue [halfSecond; halfSecond; halfSecond] (newPlayer running).

End Sample.

(** * Properties *)

Lemma PlayerState_eqb_spec (a b : PlayerState) : reflect (a = b) (PlayerState_eqb a b).
Proof. destruct a, b; simpl; constructor; congruence. Qed.

Lemma PlayerState_eqb_neq (a b : PlayerState) : a <> b -> PlayerState_eqb a b = false.
Proof. intros H. destruct (PlayerState_eqb_spec a b); congruence. Qed.

(** The scheduler does nothing unless the player is playing. *)
Lemma scheduleLoop_not_playing (n : nat) (p : Player) :
  internalState p <> playing -> scheduleLoop n p = p.
Proof.
  intros H. destruct n as [|n]; simpl; [reflexivity|].
  destruct (audioContext p); [|reflexivity].
  destruct (audioBufferQueue p); [reflexivity|].
  now rewrite (PlayerState_eqb_neq _ _ H).
Qed.

Lemma scheduleNextBufferSource_not_playing (p : Player) :
  internalState p <> playing -> scheduleNextBufferSource p = p.
Proof. apply scheduleLoop_not_playing. Qed.

(** ** Facts about rationals and lists *)

Lemma Qmax_left (x y : Q) : (y <= x)%Q -> Qmax x y = x.
Proof.
  intros H. unfold Qmax, GenericMinMax.gmax.
  destruct (x ?= y)%Q eqn:E; try reflexivity.
  apply Qlt_alt in E. exfalso. exact (Qlt_not_le _ _ E H).
Qed.

Lemma Qmax_same (x : Q) : Qmax x x = x.
Proof. apply Qmax_left, Qle_refl. Qed.


Lemma Qmax_ge_r (x y : Q) : (y <= Qmax x y)%Q.
Proof. apply Q.le_max_r. Qed.

Lemma incl_firstn_skipn {A : Type} (i : nat) (l : list A) : incl (splice1 i l) l.
Proof.
  unfold splice1. intros x Hx. apply in_app_or in Hx. destruct Hx as [Hx|Hx].
  - rewrite <- (firstn_skipn i l). apply in_or_app. now left.
  - rewrite <- (firstn_skipn (S i) l). apply in_or_app. now right.
Qed.

Lemma Forall_incl {A : Type} (P : A -> Prop) (l l' : list A) :
  incl l l' -> Forall P l' -> Forall P l.
Proof.
  intros Hi Hf. rewrite Forall_forall in *. intros x Hx. apply Hf, Hi, Hx.
Qed.

(** ** The drain pass *)

Lemma plan_buffers (id : nat) (next now : Q) (q : list AudioBuffer) :
  map buffer (plan id next now q) = q.
Proof.
  revert id next. induction q as [|b r IH]; intros id next; simpl; [reflexivity|].
  now rewrite IH.
Qed.

Lemma plan_length (id : nat) (next now : Q) (q : list AudioBuffer) :
  List.length (plan id next now q) = List.length q.
Proof. rewrite <- (length_map buffer). now rewrite plan_buffers. Qed.

Lemma plan_ids (id : nat) (next now : Q) (q : list AudioBuffer) :
  map nodeId (plan id next now q) = seq id (List.length q).
Proof.
  revert id next. induction q as [|b r IH]; intros id next; simpl; [reflexivity|].
  now rewrite IH.
Qed.

Lemma plan_ids_bounds (id : nat) (next now : Q) (q : list AudioBuffer) :
  Forall (fun s => (id <= nodeId s < id + List.length q)%nat) (plan id next now q).
Proof.
  revert id next. induction q as [|b r IH]; intros id next; simpl; constructor.
  - simpl. lia.
  - eapply Forall_impl; [|apply IH]. simpl. intros s Hs. lia.
Qed.

(** The first source of a pass never starts before the device time, and
    with buffers of non-negative duration each next one starts exactly at
    the end of the one before. *)
Lemma plan_gapless (id : nat) (next now : Q) (q : list AudioBuffer) :
  Forall (fun b => (0 <= duration b)%Q) q -> gapless (plan id next now q).
Proof.
  revert id next. induction q as [|b r IH]; intros id next Hq i s s' Hs Hs'.
  - destruct i; discriminate.
  - inversion Hq as [|b' r' Hb Hr]; subst. destruct i as [|i].
    + simpl in Hs. injection Hs as <-. simpl.
      destruct r as [|b2 r2]; [discriminate|]. simpl in Hs'. injection Hs' as <-. simpl.
      apply Qmax_left.
      apply Qle_trans with (Qmax next now); [apply Qmax_ge_r|].
      rewrite <- (Qplus_0_r (Qmax next now)) at 1.
      apply Qplus_le_r. exact Hb.
    + simpl in Hs, Hs'. exact (IH _ _ Hr i s s' Hs Hs').
Qed.


(** A drain pass of a playing player submits the whole queue, as [plan]
    describes it. *)
Lemma scheduleLoop_plan (q : list AudioBuffer) :
  forall (p : Player) (ctx : AudioContext),
    audioContext p = Some ctx -> internalState p = playing -> audioBufferQueue p = q ->
    scheduleLoop (List.length q) p =
    mkPlayer (Some ctx) [] playing
             (planEnd (nextStartTime p) (currentTime ctx) q)
             (scheduledBufferSources p ++ plan (nodeCount p) (nextStartTime p) (currentTime ctx) q)
             (eventTarget p) (nodeCount p + List.length q).
Proof.
  induction q as [|b r IH]; intros p ctx Hc Hs Hq.
  - simpl. rewrite app_nil_r, Nat.add_0_r. destruct p; simpl in *. now subst.
  - simpl. rewrite Hc, Hq, Hs. simpl. destruct r as [|b2 r2].
    + simpl. now rewrite Nat.add_1_r.
    + rewrite (IH _ ctx); try reflexivity. cbn [audioContext internalState audioBufferQueue
        nextStartTime scheduledBufferSources eventTarget nodeCount].
      rewrite <- app_assoc. cbn [app]. f_equal. cbn [List.length]. lia.
Qed.

Lemma scheduleNextBufferSource_cases (p : Player) :
  scheduleNextBufferSource p = p \/
  exists ctx,
    audioContext p = Some ctx /\ internalState p = playing /\ audioBufferQueue p <> [] /\
    scheduleNextBufferSource p =
    mkPlayer (Some ctx) [] playing
             (planEnd (nextStartTime p) (currentTime ctx) (audioBufferQueue p))
             (scheduledBufferSources p ++
              plan (nodeCount p) (nextStartTime p) (currentTime ctx) (audioBufferQueue p))
             (eventTarget p) (nodeCount p + List.length (audioBufferQueue p)).
Proof.
  destruct (PlayerState_eqb_spec (internalState p) playing) as [Hs|Hs].
  - destruct (audioContext p) as [ctx|] eqn:Hc.
    + destruct (audioBufferQueue p) as [|b r] eqn:Hq.
      * left. unfold scheduleNextBufferSource. now rewrite Hq.
      * right. exists ctx. repeat split; try congruence.
        unfold scheduleNextBufferSource. rewrite Hq. apply scheduleLoop_plan; assumption.
    + left. unfold scheduleNextBufferSource.
      destruct (List.length (audioBufferQueue p)); simpl; [reflexivity|]. now rewrite Hc.
  - left. now apply scheduleNextBufferSource_not_playing.
Qed.

Section Properties.

Variables minSampleRate maxSampleRate : positive.

Local Abbreviation addChunk := (addChunk minSampleRate maxSampleRate).
Local Abbreviation convertBase64ToAudioBuffer :=
  (convertBase64ToAudioBuffer minSampleRate maxSampleRate).
Local Abbreviation createBuffer := (createBuffer minSampleRate maxSampleRate).
Local Abbreviation supportedSampleRate := (supportedSampleRate minSampleRate maxSampleRate).
Local Abbreviation validBuffer := (validBuffer minSampleRate maxSampleRate).
Local Abbreviation step := (step minSampleRate maxSampleRate).
Local Abbreviation run := (run minSampleRate maxSampleRate).
Local Abbreviation invocations := (invocations minSampleRate maxSampleRate).
Local Abbreviation emissions := (emissions minSampleRate maxSampleRate).
Local Abbreviation reachable := (reachable minSampleRate maxSampleRate).
Local Abbreviation invariant := (invariant minSampleRate maxSampleRate).
Local Abbreviation inFlightOnly := (inFlightOnly minSampleRate maxSampleRate).

(** ** addChunk *)

(** C4.  A call of [addChunk] made while the state is [resetting] is
    rejected with the player's own error, an [InvalidStateError] of the
    design, and leaves the player, its buffer queue in particular, exactly
    as it was. *)
Theorem addChunk_while_resetting (p : Player) (base64Data : string) (rate : Q) :
  internalState p = resetting ->
  thrown (addChunk base64Data rate p) = Some (Error msgResetting) /\
  addChunkErrorKind (Error msgResetting) = InvalidStateError /\
  audioBufferQueue (after (addChunk base64Data rate p)) = audioBufferQueue p /\
  after (addChunk base64Data rate p) = p.
Proof.
  intros H. unfold addChunk. rewrite H. simpl. repeat split.
Qed.

Lemma odd_length_not_even {A : Type} (l : list A) :
  Nat.odd (List.length l) = true -> Nat.even (List.length l) = false.
Proof.
  unfold Nat.odd. now destruct (Nat.even (List.length l)).
Qed.

(** A payload with an odd number of bytes makes the decoder throw, whatever
    the player. *)
Lemma convert_odd_payload (p : Player) (base64Data : string) (rate : Q) (payload : list Z) :
  Platform.atob base64Data = Normal payload ->
  Nat.odd (List.length payload) = true ->
  convertBase64ToAudioBuffer p base64Data rate = Throw RangeError \/
  convertBase64ToAudioBuffer p base64Data rate = Throw (Error msgNoContext).
Proof.
  intros Hb Ho. unfold convertBase64ToAudioBuffer.
  destruct (audioContext p); [left|now right].
  rewrite Hb. unfold bind at 1. unfold Platform.newInt16Array.
  rewrite length_map, (odd_length_not_even _ Ho). reflexivity.
Qed.

(** C8.  When the decoded payload has an odd number of bytes, the decoder
    throws and the exception is a [DecodeError] of the design; the
    [addChunk] call that asked for the decoding is rejected, and the
    player, its buffer queue in particular, is left as it was. *)
Theorem addChunk_odd_payload
        (p : Player) (base64Data : string) (rate : Q) (payload : list Z) :
  Platform.atob base64Data = Normal payload ->
  Nat.odd (List.length payload) = true ->
  (exists e, convertBase64ToAudioBuffer p base64Data rate = Throw e /\
             addChunkErrorKind e = DecodeError) /\
  (exists e, thrown (addChunk base64Data rate p) = Some e) /\
  audioBufferQueue (after (addChunk base64Data rate p)) = audioBufferQueue p /\
  after (addChunk base64Data rate p) = p.
Proof.
  intros Hb Ho.
  assert (Hc := convert_odd_payload p base64Data rate payload Hb Ho).
  split.
  - destruct Hc as [Hc|Hc]; rewrite Hc; eexists; split; reflexivity.
  - unfold addChunk.
    destruct (PlayerState_eqb (internalState p) resetting).
    + simpl. split; [eexists; reflexivity|]. split; reflexivity.
    + destruct Hc as [Hc|Hc]; rewrite Hc; simpl;
        (split; [eexists; reflexivity|]; split; reflexivity).
Qed.

(** ** reset *)

(** A [reset] that nothing interleaves with, from any state. *)
Lemma reset_postcondition (fresh : ContextState) (p : Player) :
  internalState (reset fresh p) = idle /\
  audioBufferQueue (reset fresh p) = [] /\
  scheduledBufferSources (reset fresh p) = [] /\
  nextStartTime (reset fresh p) = 0%Q /\
  audioContext (reset fresh p) = Some (mkAudioContext fresh 0%Q) /\
  eventTarget (reset fresh p) = [].
Proof. repeat split. Qed.

Lemma addChunk_keeps (base64Data : string) (rate : Q) (p : Player) :
  internalState (after (addChunk base64Data rate p)) = internalState p /\
  scheduledBufferSources (after (addChunk base64Data rate p)) = scheduledBufferSources p /\
  nextStartTime (after (addChunk base64Data rate p)) = nextStartTime p /\
  eventTarget (after (addChunk base64Data rate p)) = eventTarget p /\
  audioContext (after (addChunk base64Data rate p)) = audioContext p /\
  nodeCount (after (addChunk base64Data rate p)) = nodeCount p.
Proof.
  unfold addChunk.
  destruct (PlayerState_eqb (internalState p) resetting); [repeat split|].
  destruct (convertBase64ToAudioBuffer p base64Data rate); repeat split.
Qed.

Lemma advance_keeps (n : N) (d : positive) (p : Player) :
  internalState (advance n d p) = internalState p /\
  scheduledBufferSources (advance n d p) = scheduledBufferSources p /\
  audioBufferQueue (advance n d p) = audioBufferQueue p /\
  nextStartTime (advance n d p) = nextStartTime p /\
  eventTarget (advance n d p) = eventTarget p /\
  nodeCount (advance n d p) = nodeCount p.
Proof.
  unfold advance. destruct (audioContext p) as [c|]; [|repeat split].
  destruct (ctxState c); repeat split.
Qed.

(** While nobody calls [play], a player that is not playing and has nothing
    in flight stays so. *)
Lemma step_without_play (e : Event) (p : Player) :
  e <> Play ->
  internalState p <> playing -> scheduledBufferSources p = [] ->
  internalState (after (step e p)) <> playing /\
  scheduledBufferSources (after (step e p)) = [].
Proof.
  intros He Hs Hl. destruct e; simpl; try congruence.
  - destruct (addChunk_keeps base64Data rate p) as (E1 & E2 & _). rewrite E1, E2. now split.
  - unfold pause. rewrite (PlayerState_eqb_neq _ _ Hs). simpl. now split.
  - split; [discriminate|reflexivity].
  - split; [discriminate|exact Hl].
  - now split.
  - now split.
  - unfold onended.
    destruct (PlayerState_eqb (internalState p) resetting); simpl; [now split|].
    rewrite Hl. simpl. rewrite Hl.
    destruct (audioBufferQueue p) eqn:Eq; simpl.
    + split; [discriminate|exact Hl].
    + rewrite scheduleNextBufferSource_not_playing by exact Hs. now split.
  - destruct (advance_keeps n d p) as (E1 & E2 & _). rewrite E1, E2. now split.
Qed.




(** ** The decoder's buffers *)

Lemma typedArraySet_silent (samples : list Q) :
  Platform.typedArraySet (repeat 0%Q (List.length samples)) samples = Normal samples.
Proof.
  unfold Platform.typedArraySet. rewrite repeat_length, Nat.ltb_irrefl.
  rewrite skipn_all2 by (rewrite repeat_length; lia). now rewrite app_nil_r.
Qed.

(** What the decoder returns when it returns: the payload has an even
    number of bytes, and the buffer is mono, holds one normalised sample
    per 16-bit element and has passed the device's [createBuffer]. *)
Lemma convert_inversion (p : Player) (base64Data : string) (rate : Q) (b : AudioBuffer) :
  convertBase64ToAudioBuffer p base64Data rate = Normal b ->
  exists payload,
    Platform.atob base64Data = Normal payload /\
    Nat.even (List.length payload) = true /\
    let samples :=
      map (fun s => inject_Z s / 32768)%Q
          (Platform.int16Elements (map Platform.toUint8 payload)) in
    b = mkAudioBuffer 1 (List.length samples) rate samples /\
    (1 <= List.length samples)%nat /\
    supportedSampleRate rate = true.
Proof.
  unfold convertBase64ToAudioBuffer.
  destruct (audioContext p); [|discriminate].
  destruct (Platform.atob base64Data) as [payload|]; [|discriminate].
  unfold bind at 1. unfold Platform.newInt16Array. rewrite length_map.
  destruct (Nat.even (List.length payload)) eqn:He; [|discriminate].
  unfold bind at 1. unfold createBuffer.
  set (samples := map _ (Platform.int16Elements _)).
  destruct ((1 <=? 1)%nat && (1 <=? 32)%nat && (1 <=? List.length samples)%nat
            && supportedSampleRate rate) eqn:Hv; [|discriminate].
  unfold bind at 1. cbn [channelData numberOfChannels bufLength sampleRate].
  rewrite typedArraySet_silent. unfold bind. intros [= <-].
  exists payload. repeat split; try assumption.
  - apply andb_prop in Hv. destruct Hv as [Hv _]. apply andb_prop in Hv.
    destruct Hv as [_ Hv]. now apply Nat.leb_le in Hv.
  - apply andb_prop in Hv. now destruct Hv.
Qed.

Lemma convert_valid (p : Player) (base64Data : string) (rate : Q) (b : AudioBuffer) :
  convertBase64ToAudioBuffer p base64Data rate = Normal b -> validBuffer b.
Proof.
  intros H. destruct (convert_inversion _ _ _ _ H) as (payload & _ & _ & Hb & Hl & Hr).
  subst b. split; assumption.
Qed.

Lemma validBuffer_duration (b : AudioBuffer) : validBuffer b -> (0 < duration b)%Q.
Proof.
  intros [Hl Hr]. unfold supportedSampleRate in Hr.
  apply andb_prop in Hr. destruct Hr as [Hr _]. apply Qle_bool_iff in Hr.
  assert (Hpos : (0 < sampleRate b)%Q).
  { eapply Qlt_le_trans; [|exact Hr]. reflexivity. }
  unfold duration. apply Qlt_shift_div_l; [exact Hpos|].
  rewrite Qmult_0_l. unfold Qlt, inject_Z. simpl. lia.
Qed.

Lemma validQueue_durations (q : list AudioBuffer) :
  Forall validBuffer q -> Forall (fun b => (0 <= duration b)%Q) q.
Proof.
  apply Forall_impl. intros b Hb. apply Qlt_le_weak, validBuffer_duration, Hb.
Qed.

(** ** One step of an execution *)

(** The sources after a step: some of those there were, followed by one
    drain pass over some of the queued buffers (possibly none). *)
Lemma step_sources (e : Event) (p : Player) :
  exists old q t now,
    scheduledBufferSources (after (step e p)) = old ++ plan (nodeCount p) t now q /\
    incl old (scheduledBufferSources p) /\
    incl q (audioBufferQueue p) /\
    nodeCount (after (step e p)) = (nodeCount p + List.length q)%nat.
Proof.
  assert (Hsame : forall p' : Player,
             scheduledBufferSources p' = scheduledBufferSources p ->
             nodeCount p' = nodeCount p ->
             exists old q t now,
               scheduledBufferSources p' = old ++ plan (nodeCount p) t now q /\
               incl old (scheduledBufferSources p) /\
               incl q (audioBufferQueue p) /\
               nodeCount p' = (nodeCount p + List.length q)%nat).
  { intros p' Hs Hn. exists (scheduledBufferSources p), [], 0%Q, 0%Q.
    simpl. rewrite app_nil_r, Nat.add_0_r. repeat split; auto using incl_refl.
    intros x []. }
  assert (Hsched : forall p1 : Player,
             incl (scheduledBufferSources p1) (scheduledBufferSources p) ->
             audioBufferQueue p1 = audioBufferQueue p ->
             nodeCount p1 = nodeCount p ->
             exists old q t now,
               scheduledBufferSources (scheduleNextBufferSource p1)
               = old ++ plan (nodeCount p) t now q /\
               incl old (scheduledBufferSources p) /\
               incl q (audioBufferQueue p) /\
               nodeCount (scheduleNextBufferSource p1) = (nodeCount p + List.length q)%nat).
  { intros p1 Hi Hq Hn.
    destruct (scheduleNextBufferSource_cases p1) as [E|(ctx & _ & _ & _ & E)]; rewrite E.
    - exists (scheduledBufferSources p1), [], 0%Q, 0%Q.
      simpl. rewrite app_nil_r, Nat.add_0_r. repeat split; auto. intros x [].
    - exists (scheduledBufferSources p1), (audioBufferQueue p),
             (nextStartTime p1), (currentTime ctx).
      cbn [scheduledBufferSources nodeCount]. rewrite Hq, Hn.
      repeat split; auto using incl_refl. }
  destruct e; simpl.
  - apply Hsame; apply addChunk_keeps.
  - unfold play. destruct (audioContext p) as [ctx|]; [|now apply Hsame].
    destruct (PlayerState_eqb (internalState p) playing); [now apply Hsame|].
    cbn [scheduledBufferSources audioBufferQueue setAudioContext setInternalState].
    destruct (scheduledBufferSources p) eqn:Hs; [|apply Hsame; simpl; auto].
    destruct (audioBufferQueue p) eqn:Hq; [apply Hsame; simpl; auto|].
    cbn [after done]. rewrite <- Hs.
    match goal with |- context [scheduleNextBufferSource ?x] => destruct (Hsched x)
      as (old & q & t & now & H); simpl; auto end.
    + rewrite Hs. apply incl_refl.
    + exists old, q, t, now. rewrite Hs. exact H.
  - unfold pause. destruct (PlayerState_eqb (internalState p) playing); simpl;
      [|now apply Hsame].
    destruct (audioContext p); now apply Hsame.
  - exists [], [], 0%Q, 0%Q. simpl. rewrite Nat.add_0_r. repeat split; intros x [].
  - now apply Hsame.
  - now apply Hsame.
  - now apply Hsame.
  - unfold onended.
    destruct (PlayerState_eqb (internalState p) resetting); [now apply Hsame|].
    set (p1 := match indexOf id (scheduledBufferSources p) with
               | Some index =>
                   setScheduledBufferSources (splice1 index (scheduledBufferSources p)) p
               | None => p
               end).
    assert (H1 : incl (scheduledBufferSources p1) (scheduledBufferSources p) /\
                 audioBufferQueue p1 = audioBufferQueue p /\ nodeCount p1 = nodeCount p).
    { subst p1. destruct (indexOf id (scheduledBufferSources p)); simpl.
      - split; [apply incl_firstn_skipn|now split].
      - split; [apply incl_refl|now split]. }
    destruct H1 as (Hi & Hq & Hn).
    assert (Hkeep : exists old q t now,
               scheduledBufferSources p1 = old ++ plan (nodeCount p) t now q /\
               incl old (scheduledBufferSources p) /\
               incl q (audioBufferQueue p) /\
               nodeCount p1 = (nodeCount p + List.length q)%nat).
    { exists (scheduledBufferSources p1), [], 0%Q, 0%Q.
      simpl. rewrite app_nil_r, Nat.add_0_r. repeat split; auto. intros x []. }
    destruct (scheduledBufferSources p1) eqn:Hs1, (audioBufferQueue p1) eqn:Hq1;
      cbn [after done].
    + unfold dispatchEnded. simpl. rewrite Hs1. exact Hkeep.
    + rewrite <- Hq1 in Hq. apply Hsched; auto. rewrite Hs1. intros x [].
    + rewrite Hs1. exact Hkeep.
    + rewrite <- Hq1 in Hq. rewrite <- Hs1 in Hi. apply Hsched; auto.
  - apply Hsame; apply advance_keeps.
Qed.


Lemma scheduleNextBufferSource_queue (p : Player) :
  audioBufferQueue (scheduleNextBufferSource p) = audioBufferQueue p \/
  audioBufferQueue (scheduleNextBufferSource p) = [].
Proof.
  destruct (scheduleNextBufferSource_cases p) as [E|(ctx & _ & _ & _ & E)]; rewrite E;
    [now left|now right].
Qed.

Lemma step_queue_valid (e : Event) (p : Player) :
  Forall validBuffer (audioBufferQueue p) ->
  Forall validBuffer (audioBufferQueue (after (step e p))).
Proof.
  intros H. destruct e; simpl; try assumption.
  - unfold addChunk.
    destruct (PlayerState_eqb (internalState p) resetting); [exact H|].
    destruct (convertBase64ToAudioBuffer p base64Data rate) as [b|] eqn:E; [|exact H].
    simpl. apply Forall_app. split; [exact H|]. constructor; [|constructor].
    exact (convert_valid _ _ _ _ E).
  - unfold play. destruct (audioContext p); [|exact H].
    destruct (PlayerState_eqb (internalState p) playing); [exact H|].
    cbn [scheduledBufferSources audioBufferQueue setAudioContext setInternalState].
    destruct (scheduledBufferSources p); [|exact H].
    destruct (audioBufferQueue p) eqn:Hq; [simpl; rewrite ?Hq; constructor|].
    cbn [after done].
    match goal with |- context [scheduleNextBufferSource ?x] =>
      destruct (scheduleNextBufferSource_queue x) as [E|E]; rewrite E end.
    + simpl. now rewrite Hq.
    + constructor.
  - unfold pause. destruct (negb (PlayerState_eqb (internalState p) playing)); [exact H|].
    destruct (audioContext p); exact H.
  - constructor.
  - unfold onended.
    destruct (PlayerState_eqb (internalState p) resetting); [exact H|].
    set (p1 := match indexOf id (scheduledBufferSources p) with
               | Some index =>
                   setScheduledBufferSources (splice1 index (scheduledBufferSources p)) p
               | None => p
               end).
    assert (Hq : audioBufferQueue p1 = audioBufferQueue p).
    { subst p1. now destruct (indexOf id (scheduledBufferSources p)). }
    rewrite <- Hq in H.
    destruct (scheduledBufferSources p1), (audioBufferQueue p1) eqn:Hq1; cbn [after done];
      try (rewrite Hq1; constructor).
    + unfold dispatchEnded. simpl. rewrite Hq1. constructor.
    + destruct (scheduleNextBufferSource_queue p1) as [E|E]; rewrite E;
        [now rewrite Hq1|constructor].
    + destruct (scheduleNextBufferSource_queue p1) as [E|E]; rewrite E;
        [now rewrite Hq1|constructor].
  - now destruct (advance_keeps n d p) as (_ & _ & -> & _).
Qed.

Lemma step_invariant (e : Event) (p : Player) :
  invariant p -> invariant (after (step e p)).
Proof.
  intros [Hq Hs]. split; [now apply step_queue_valid|].
  destruct (step_sources e p) as (old & q & t & now & E & Hold & _ & Hn).
  rewrite E, Hn. apply Forall_app. split.
  - eapply Forall_impl; [|exact (Forall_incl _ _ _ Hold Hs)]. simpl. intros s H. lia.
  - eapply Forall_impl; [|apply plan_ids_bounds]. simpl. intros s H. lia.
Qed.

Lemma run_invariant (evs : list Event) (p : Player) :
  invariant p -> invariant (run evs p).
Proof.
  revert p. induction evs as [|e evs IH]; intros p H; simpl; [exact H|].
  apply IH, step_invariant, H.
Qed.

Lemma reachable_invariant (p : Player) : reachable p -> invariant p.
Proof.
  intros (fresh & evs & _ & ->). apply run_invariant. split; constructor.
Qed.

Lemma filter_none {A : Type} (f : A -> bool) (l : list A) :
  Forall (fun x => f x = false) l -> filter f l = [].
Proof.
  induction 1 as [|x l Hx _ IH]; simpl; [reflexivity|]. now rewrite Hx.
Qed.

Lemma filter_all {A : Type} (f : A -> bool) (l : list A) :
  Forall (fun x => f x = true) l -> filter f l = l.
Proof.
  induction 1 as [|x l Hx _ IH]; simpl; [reflexivity|]. now rewrite Hx, IH.
Qed.

(** The sources created by a step are those of one drain pass over buffers
    of the queue. *)
Lemma step_scheduledSince (e : Event) (p : Player) :
  invariant p ->
  exists q t now,
    scheduledSince p (after (step e p)) = plan (nodeCount p) t now q /\
    incl q (audioBufferQueue p).
Proof.
  intros [_ Hs].
  destruct (step_sources e p) as (old & q & t & now & E & Hold & Hq & _).
  exists q, t, now. split; [|exact Hq].
  unfold scheduledSince. rewrite E, filter_app.
  rewrite filter_none, filter_all; [reflexivity| |].
  - eapply Forall_impl; [|apply plan_ids_bounds]. simpl. intros s H.
    apply Nat.leb_le. lia.
  - eapply Forall_impl; [|exact (Forall_incl _ _ _ Hold Hs)]. simpl. intros s H.
    apply Nat.leb_gt. exact H.
Qed.

(** ** Scheduling *)

(** C1.  In every state the player can reach, the sources that one step
    schedules, [play()] or a completion callback in particular, abut:
    each starts at the start of the one scheduled before it plus that
    one's duration. *)
Theorem drain_pass_gapless (p : Player) (e : Event) :
  reachable p ->
  gapless (scheduledSince p (after (step e p))).
Proof.
  intros Hr. assert (Hi := reachable_invariant p Hr).
  destruct (step_scheduledSince e p Hi) as (q & t & now & E & Hq).
  rewrite E. apply plan_gapless, validQueue_durations.
  exact (Forall_incl _ _ _ Hq (proj1 Hi)).
Qed.

(** What [play()] does when it starts the scheduling. *)
Lemma play_starts_scheduling (p : Player) (ctx : AudioContext) :
  audioContext p = Some ctx ->
  internalState p <> playing ->
  scheduledBufferSources p = [] ->
  audioBufferQueue p <> [] ->
  let now := currentTime ctx in
  play p =
  done (mkPlayer (Some (resumeContext ctx)) [] playing
                 (planEnd now now (audioBufferQueue p))
                 (plan (nodeCount p) now now (audioBufferQueue p))
                 (eventTarget p)
                 (nodeCount p + List.length (audioBufferQueue p))).
Proof.
  intros Hc Hs Hl Hq now. unfold play. rewrite Hc, (PlayerState_eqb_neq _ _ Hs).
  cbn [scheduledBufferSources audioBufferQueue setAudioContext setInternalState].
  rewrite Hl. destruct (audioBufferQueue p) as [|b r] eqn:Eq; [congruence|].
  f_equal. unfold scheduleNextBufferSource.
  cbn [audioBufferQueue setNextStartTime setAudioContext setInternalState]. rewrite Eq.
  rewrite (scheduleLoop_plan (b :: r) _ (resumeContext ctx));
    [|reflexivity|reflexivity|exact Eq].
  unfold setNextStartTime, setAudioContext, setInternalState.
  cbn [nextStartTime scheduledBufferSources eventTarget nodeCount audioContext
       audioBufferQueue internalState].
  rewrite Hl. cbn [app].
  assert (Ht : currentTime (resumeContext ctx) = now).
  { unfold resumeContext. now destruct (ctxState ctx). }
  now rewrite Ht.
Qed.

Lemma play_not_scheduling (p : Player) (ctx : AudioContext) :
  audioContext p = Some ctx ->
  internalState p <> playing ->
  scheduledBufferSources p <> [] \/ audioBufferQueue p = [] ->
  play p = done (setAudioContext (Some (resumeContext ctx)) (setInternalState playing p)).
Proof.
  intros Hc Hs H. unfold play. rewrite Hc, (PlayerState_eqb_neq _ _ Hs).
  cbn [scheduledBufferSources audioBufferQueue setAudioContext setInternalState].
  destruct (scheduledBufferSources p); [|reflexivity].
  destruct (audioBufferQueue p); [reflexivity|].
  destruct H; congruence.
Qed.

(** ** play *)


(** C10.  [ended] is not final: [play()] on a player in state [ended]
    makes it [playing] again, and when buffers are queued and nothing is
    in flight it schedules them all, the first one at the current device
    time. *)
Theorem play_after_ended (p : Player) (ctx : AudioContext) :
  internalState p = ended ->
  audioContext p = Some ctx ->
  thrown (play p) = None /\
  internalState (after (play p)) = playing /\
  forall b rest,
    audioBufferQueue p = b :: rest ->
    scheduledBufferSources p = [] ->
    exists s more,
      scheduledBufferSources (after (play p)) = s :: more /\
      buffer s = b /\ map buffer more = rest /\
      startTime s = currentTime ctx /\
      nextStartTime (after (play p)) =
        planEnd (currentTime ctx + duration b)%Q (currentTime ctx) rest /\
      audioBufferQueue (after (play p)) = [].
Proof.
  intros Hs Hc.
  assert (Hn : internalState p <> playing) by congruence.
  destruct (scheduledBufferSources p) as [|s0 l0] eqn:Hl;
    [destruct (audioBufferQueue p) as [|b0 r0] eqn:Hq|].
  - rewrite (play_not_scheduling p ctx Hc Hn) by now right.
    repeat split. intros; discriminate.
  - rewrite (play_starts_scheduling p ctx Hc Hn Hl) by congruence.
    rewrite Hq. repeat split. intros b rest [= <- <-] _.
    simpl. eexists. eexists. split; [reflexivity|]. simpl.
    rewrite Qmax_same, plan_buffers. repeat split.
  - rewrite (play_not_scheduling p ctx Hc Hn) by (left; congruence).
    repeat split. intros; discriminate.
Qed.


(** ** nextStartTime *)



(** ** The ended event *)

Lemma scheduleNextBufferSource_state (p : Player) :
  internalState (scheduleNextBufferSource p) = internalState p.
Proof.
  destruct (scheduleNextBufferSource_cases p) as [E|(ctx & _ & Hs & _ & E)]; rewrite E;
    [reflexivity|now rewrite Hs].
Qed.

(** Only a completion callback dispatches, and only it enters [ended]. *)
Lemma step_not_completion (e : Event) (p : Player) :
  (forall id, e <> Ended id) ->
  dispatched (step e p) = 0%nat /\
  (internalState (after (step e p)) = ended -> internalState p = ended).
Proof.
  intros He. destruct e; simpl; try (split; [reflexivity|congruence]).
  - destruct (addChunk_keeps base64Data rate p) as (-> & _). split; [|auto].
    unfold addChunk.
    destruct (PlayerState_eqb (internalState p) resetting); [reflexivity|].
    now destruct (convertBase64ToAudioBuffer p base64Data rate).
  - unfold play. destruct (audioContext p); [|now split].
    destruct (PlayerState_eqb (internalState p) playing); [now split|].
    cbn [scheduledBufferSources audioBufferQueue setAudioContext setInternalState].
    destruct (scheduledBufferSources p); [|split; [reflexivity|discriminate]].
    destruct (audioBufferQueue p); [split; [reflexivity|discriminate]|].
    cbn [after done dispatched]. rewrite scheduleNextBufferSource_state.
    split; [reflexivity|discriminate].
  - unfold pause. destruct (negb (PlayerState_eqb (internalState p) playing)); [now split|].
    destruct (audioContext p); split; try reflexivity; auto; discriminate.
  - now elim (He id).
  - destruct (advance_keeps n d p) as (-> & _). now split.
Qed.

(** The completion callback, case by case. *)
Lemma onended_cases (id : nat) (p : Player) :
  (dispatched (onended id p) = 0%nat /\
   internalState (after (onended id p)) = internalState p) \/
  (dispatched (onended id p) = 1%nat /\
   internalState p <> resetting /\
   audioBufferQueue p = [] /\
   audioBufferQueue (after (onended id p)) = [] /\
   scheduledBufferSources (after (onended id p)) = [] /\
   internalState (after (onended id p)) = ended).
Proof.
  unfold onended.
  destruct (PlayerState_eqb_spec (internalState p) resetting) as [Hs|Hs]; [now left|].
  set (p1 := match indexOf id (scheduledBufferSources p) with
             | Some index =>
                 setScheduledBufferSources (splice1 index (scheduledBufferSources p)) p
             | None => p
             end).
  assert (H1 : audioBufferQueue p1 = audioBufferQueue p /\
               internalState p1 = internalState p).
  { subst p1. now destruct (indexOf id (scheduledBufferSources p)). }
  destruct H1 as [Hq1 Hs1].
  destruct (scheduledBufferSources p1) eqn:Hl, (audioBufferQueue p1) eqn:Hq;
    cbn [after done dispatched].
  - right. unfold dispatchEnded. simpl. rewrite Hl, Hq. repeat split; congruence.
  - left. now rewrite scheduleNextBufferSource_state.
  - now left.
  - left. now rewrite scheduleNextBufferSource_state.
Qed.

(** When the last source in flight completes with nothing queued, [ended]
    is dispatched. *)
Lemma onended_last_source (s : SourceNode) (p : Player) :
  internalState p <> resetting ->
  scheduledBufferSources p = [s] ->
  audioBufferQueue p = [] ->
  dispatched (onended (nodeId s) p) = 1%nat /\
  internalState (after (onended (nodeId s) p)) = ended.
Proof.
  intros Hs Hl Hq. unfold onended. rewrite (PlayerState_eqb_neq _ _ Hs), Hl.
  simpl. rewrite Nat.eqb_refl. simpl. rewrite Hq. now split.
Qed.

Lemma no_emission_at_rest (evs : list Event) :
  forall p : Player,
    ~ In Play evs -> inFlightOnly evs p ->
    internalState p <> playing -> scheduledBufferSources p = [] ->
    emissions evs p = 0%nat.
Proof.
  induction evs as [|e evs IH]; intros p Hn Hf Hs Hl; simpl; [reflexivity|].
  destruct Hf as [Hid Hf].
  assert (He : e <> Play) by (intros ->; apply Hn; now left).
  assert (Hn' : ~ In Play evs) by (intros H; apply Hn; now right).
  destruct (step_without_play e p He Hs Hl) as [Hs' Hl'].
  rewrite (IH _ Hn' Hf Hs' Hl'), Nat.add_0_r.
  destruct e; try (apply step_not_completion; discriminate).
  rewrite Hl in Hid. now elim Hid.
Qed.

Lemma step_dispatched_cases (e : Event) (p : Player) :
  dispatched (step e p) = 0%nat \/
  (dispatched (step e p) = 1%nat /\ (exists id, e = Ended id) /\
   internalState p <> resetting /\
   audioBufferQueue p = [] /\
   audioBufferQueue (after (step e p)) = [] /\
   scheduledBufferSources (after (step e p)) = [] /\
   internalState (after (step e p)) = ended).
Proof.
  destruct e; try (left; apply step_not_completion; discriminate).
  simpl. destruct (onended_cases id p) as [[H _]|H]; [now left|right].
  destruct H as (H1 & H2). repeat split; try tauto. now exists id.
Qed.

(** C5, as the code has it.  One step dispatches at most one [ended]
    event; a step that does is a completion callback, run in a state
    other than [resetting], that leaves the queue and the set in flight
    empty and the state [ended]; no other step, [pause()] and [reset()]
    included, moves the state to [ended]; the completion of the last
    source in flight with nothing queued does dispatch it; and between
    two calls of [play()] at most one [ended] is dispatched, as long as
    the device completes only sources in flight.  The callback does not
    ask for the state to be [playing]. *)
Theorem ended_dispatch (p : Player) (e : Event) (evs : list Event) (s : SourceNode) :
  (dispatched (step e p) <= 1)%nat /\
  (dispatched (step e p) = 1%nat ->
   (exists id, e = Ended id) /\
   internalState p <> resetting /\
   audioBufferQueue (after (step e p)) = [] /\
   scheduledBufferSources (after (step e p)) = [] /\
   internalState (after (step e p)) = ended) /\
  (internalState (after (step e p)) = ended -> internalState p <> ended ->
   (exists id, e = Ended id) /\ dispatched (step e p) = 1%nat) /\
  (internalState p <> resetting -> scheduledBufferSources p = [s] ->
   audioBufferQueue p = [] ->
   dispatched (step (Ended (nodeId s)) p) = 1%nat) /\
  (~ In Play evs -> inFlightOnly evs p -> (emissions evs p <= 1)%nat).
Proof.
  split; [|split; [|split; [|split]]].
  - destruct (step_dispatched_cases e p) as [->|[-> _]]; lia.
  - intros H. destruct (step_dispatched_cases e p) as [H0|H1]; [congruence|].
    repeat split; tauto.
  - intros H H0.
    assert (Hc : exists id, e = Ended id).
    { destruct e;
        try (exfalso; apply H0;
             refine (proj2 (step_not_completion _ p _) H); discriminate).
      now exists id. }
    split; [exact Hc|]. destruct Hc as [id ->]. simpl in *.
    destruct (onended_cases id p) as [[_ E]|(E & _)]; [congruence|exact E].
  - intros Hs Hl Hq. simpl. now apply onended_last_source.
  - revert p. induction evs as [|e' evs' IH]; intros p Hn Hf; simpl; [lia|].
    destruct Hf as [Hid Hf].
    assert (Hn' : ~ In Play evs') by (intros H; apply Hn; now right).
    destruct (step_dispatched_cases e' p) as [->|(-> & _ & _ & _ & _ & Hl & Hs)].
    + simpl. now apply IH.
    + rewrite (no_emission_at_rest evs' _ Hn' Hf); [lia| |exact Hl]. congruence.
Qed.

(** ** The event notifier *)








(** ** The decoder *)





(** Two bytes joined low byte first and read as a signed 16-bit integer. *)
Lemma toInt16_int16LE (lo hi : Z) :
  isByte lo -> isByte hi ->
  Platform.toInt16 (Z.lor lo (Z.shiftl hi 8)) = int16LE lo hi.
Proof.
  unfold isByte. intros Hlo Hhi.
  assert (Hland : Z.land lo (Z.shiftl hi 8) = 0).
  { apply Z.bits_inj'. intros n Hn. rewrite Z.land_spec, Z.bits_0.
    destruct (Z.lt_ge_cases n 8) as [Hlt|Hge].
    - rewrite Z.shiftl_spec_low by lia. apply andb_false_r.
    - rewrite <- (Z.mod_small lo (2 ^ 8)) by (change (2 ^ 8) with 256; lia).
      now rewrite Z.mod_pow2_bits_high by lia. }
  rewrite <- (Z.lxor_lor _ _ Hland), <- (Z.add_nocarry_lxor _ _ Hland).
  rewrite Z.shiftl_mul_pow2 by lia.
  change (2 ^ 8) with 256.
  unfold Platform.toInt16, int16LE.
  rewrite Z.testbit_odd, Z.shiftr_div_pow2 by lia. change (2 ^ 15) with 32768.
  replace (lo + 256 * hi) with (lo + hi * 256) by lia.
  set (u := lo + hi * 256). assert (Hu : 0 <= u < 65536) by (subst u; lia).
  destruct (Z.lt_ge_cases u 32768) as [Hlt|Hge].
  - rewrite Z.div_small by lia. simpl. rewrite Z.mod_small by lia. lia.
  - assert (Hd : u / 32768 = 1) by (symmetry; apply Z.div_unique with (u - 32768); lia).
    rewrite Hd. simpl.
    assert (Hm : (u + 32768) mod 65536 = u - 32768)
      by (symmetry; apply Z.mod_unique with 1; lia).
    rewrite Hm. lia.
Qed.

Lemma list_pairs_ind {A : Type} (P : list A -> Prop) :
  P [] -> (forall a, P [a]) -> (forall a b l, P l -> P (a :: b :: l)) ->
  forall l, P l.
Proof.
  intros H0 H1 H2 l. assert (H : P l /\ forall a, P (a :: l)).
  { induction l as [|x l [IH1 IH2]]; split; auto. }
  apply H.
Qed.

Lemma half_length_SS {A : Type} (a b : A) (l : list A) :
  (List.length (a :: b :: l) / 2 = S (List.length l / 2))%nat.
Proof.
  cbn [List.length].
  replace (S (S (List.length l))) with (1 * 2 + List.length l)%nat by lia.
  rewrite Nat.div_add_l by lia. lia.
Qed.

Lemma int16Elements_length (bytes : list Z) :
  List.length (Platform.int16Elements bytes) = (List.length bytes / 2)%nat.
Proof.
  induction bytes as [|a|a b l IH] using list_pairs_ind; try reflexivity.
  rewrite half_length_SS. cbn [Platform.int16Elements List.length]. now rewrite IH.
Qed.




End Properties.

(** * The properties on sample executions *)

Section Samples.

Import Sample.

Example atob_twoSamples : Platform.atob twoSamples = Normal [0; 0; 255; 127].
Proof. reflexivity. Qed.

(** The largest sample, 32767, decodes to 32767/32768, not to 1. *)
Example decode_fourSamples :
  convertBase64ToAudioBuffer minRate maxRate (newPlayer running) fourSamples rate16k =
  Normal (mkAudioBuffer 1 4 rate16k [0 # 32768; 32767 # 32768; -32768 # 32768; -1 # 32768]%Q).
Proof. reflexivity. Qed.

(** Three buffers of half a second queued at device time 0: [play()]
    schedules them at 0, 0.5 and 1; once the three have completed [ended]
    has been dispatched once, and the queue and the set in flight are
    empty. *)
Example three_half_seconds :
  let p := after (play threeQueued) in
  Forall2 Qeq (map startTime (scheduledBufferSources p)) [0; 1 # 2; 1]%Q /\
  let done3 := [Tick 3 2; Ended 0; Ended 1; Ended 2] in
  emissions minRate maxRate done3 p = 1%nat /\
  internalState (run minRate maxRate done3 p) = ended /\
  audioBufferQueue (run minRate maxRate done3 p) = [] /\
  scheduledBufferSources (run minRate maxRate done3 p) = [].
Proof.
  split; [|repeat split].
  vm_compute. repeat constructor.
Qed.

Lemma drain_pass_gapless_witness :
  reachable minRate maxRate queued /\
  List.length (scheduledSince queued (after (step minRate maxRate Play queued))) = 3%nat /\
  gapless (scheduledSince queued (after (step minRate maxRate Play queued))).
Proof.
  assert (H : reachable minRate maxRate queued).
  { exists suspended. eexists. split; [|reflexivity]. reflexivity. }
  split; [exact H|]. split; [reflexivity|].
  exact (drain_pass_gapless minRate maxRate queued Play H).
Defined.




(** The restriction of the reset theorem to calls other than [play()]
    is needed: a [play()] that arrives while [reset()] awaits schedules the
    queued buffer, and the completion of the reset leaves that source in
    the list. *)
Example play_during_reset :
  let p := resetEnd running (run minRate maxRate [Play] midReset) in
  internalState p = idle /\ audioBufferQueue p = [] /\ nextStartTime p = 0%Q /\
  List.length (scheduledBufferSources p) = 1%nat.
Proof. repeat split. Qed.

Lemma addChunk_while_resetting_witness :
  internalState midReset = resetting /\
  audioBufferQueue (after (addChunk minRate maxRate oneSample rate16k midReset)) =
  audioBufferQueue midReset.
Proof.
  split; [reflexivity|].
  exact (proj1 (proj2 (proj2
    (addChunk_while_resetting minRate maxRate midReset oneSample rate16k eq_refl)))).
Defined.

Lemma addChunk_odd_payload_witness :
  Platform.atob threeBytes = Normal [0; 0; 0] /\
  after (addChunk minRate maxRate threeBytes rate16k midPlaying) = midPlaying.
Proof.
  split; [reflexivity|].
  exact (proj2 (proj2 (proj2
    (addChunk_odd_payload minRate maxRate midPlaying threeBytes rate16k [0; 0; 0]
       eq_refl eq_refl)))).
Defined.

(** Counterexample to C5 as stated: a completion delivered after [pause()] moves the
    state from [paused] to [ended] and dispatches the event. *)
Lemma ended_entered_from_paused :
  internalState pausedLate = paused /\
  indexOf 0 (scheduledBufferSources pausedLate) = Some 0%nat /\
  internalState (after (step minRate maxRate (Ended 0) pausedLate)) = ended /\
  dispatched (step minRate maxRate (Ended 0) pausedLate) = 1%nat.
Proof. repeat split. Qed.

Lemma ended_dispatch_witness :
  dispatched (step minRate maxRate (Ended 0) pausedLate) = 1%nat /\
  (emissions minRate maxRate [Ended 0; AddChunk oneSample rate16k; Pause] pausedLate <= 1)%nat.
Proof.
  destruct (ended_dispatch minRate maxRate pausedLate (Ended 0)
              [Ended 0; AddChunk oneSample rate16k; Pause]
              (mkSourceNode 0 (mkAudioBuffer 1 1 rate16k [0 # 32768]%Q) 0))
    as (_ & _ & _ & H4 & H5).
  split.
  - apply H4; [discriminate|reflexivity|reflexivity].
  - apply H5.
    + simpl. intros [H|[H|[H|[]]]]; discriminate.
    + simpl. repeat split. discriminate.
Defined.





(** A listener registered before [play()] is invoked when the stream
    ends. *)
Example listener_invoked_at_end :
  invocations minRate maxRate
    [AddEventListener (Some 7%nat) defaultOptions; AddChunk oneSample rate16k; Play;
     Tick 3 1000; Ended 0]
    (newPlayer running) = [7%nat].
Proof. reflexivity. Qed.


Lemma play_after_ended_witness :
  internalState endedWithChunk = ended /\
  internalState (after (play endedWithChunk)) = playing.
Proof.
  split; [reflexivity|].
  exact (proj1 (proj2
    (play_after_ended endedWithChunk (mkAudioContext running (3 # 1000)) eq_refl eq_refl))).
Defined.

End Samples.

(** * Further properties of the player *)

Section MoreProperties.

Variables minSampleRate maxSampleRate : positive.

Local Abbreviation addChunk := (addChunk minSampleRate maxSampleRate).
Local Abbreviation convertBase64ToAudioBuffer :=
  (convertBase64ToAudioBuffer minSampleRate maxSampleRate).
Local Abbreviation createBuffer := (createBuffer minSampleRate maxSampleRate).
Local Abbreviation supportedSampleRate := (supportedSampleRate minSampleRate maxSampleRate).
Local Abbreviation wellFormedBuffer := (wellFormedBuffer minSampleRate maxSampleRate).
Local Abbreviation step := (step minSampleRate maxSampleRate).
Local Abbreviation run := (run minSampleRate maxSampleRate).
Local Abbreviation reachable := (reachable minSampleRate maxSampleRate).

(** ** The decoder's results *)

Lemma toUint8_isByte (l : list Z) : Forall isByte (map Platform.toUint8 l).
Proof.
  induction l as [|x l IH]; simpl; constructor; [|exact IH].
  unfold isByte, Platform.toUint8. apply Z.mod_pos_bound. reflexivity.
Qed.

Lemma int16LE_range (lo hi : Z) : -32768 <= int16LE lo hi < 32768.
Proof.
  unfold int16LE.
  assert (H := Z.mod_pos_bound (lo + 256 * hi + 32768) 65536 eq_refl). lia.
Qed.

Lemma int16Elements_range (bytes : list Z) :
  Forall isByte bytes ->
  Forall (fun z => -32768 <= z < 32768) (Platform.int16Elements bytes).
Proof.
  induction bytes as [|a|a b l IH] using list_pairs_ind; intros H;
    cbn [Platform.int16Elements]; constructor.
  - inversion H as [|? ? Ha H1]; subst. inversion H1 as [|? ? Hb H2]; subst.
    rewrite toInt16_int16LE by assumption. apply int16LE_range.
  - apply IH. inversion H as [|? ? _ H1]; subst. now inversion H1.
Qed.

Lemma normalised_int16 (z : Z) :
  -32768 <= z < 32768 -> normalised (inject_Z z / 32768)%Q.
Proof.
  intros H. unfold normalised, Qdiv, Qmult, Qinv, Qle, Qlt, inject_Z. simpl. lia.
Qed.

Lemma convert_wellFormed
      (p : Player) (base64Data : string) (rate : Q) (b : AudioBuffer) :
  convertBase64ToAudioBuffer p base64Data rate = Normal b ->
  wellFormedBuffer b /\ sampleRate b = rate.
Proof.
  intros H.
  destruct (convert_inversion _ _ _ _ _ _ H) as (payload & _ & _ & Hb & Hl & Hr).
  cbv zeta in Hb. subst b. split; [|reflexivity].
  repeat split; try assumption; cbn [channelData].
  apply Forall_map.
  eapply Forall_impl; [|apply int16Elements_range, toUint8_isByte].
  intros z Hz. now apply normalised_int16.
Qed.

(** X1.  Whatever the decoder returns is mono, not empty, as long as it says,
    at a supported rate and so of positive duration, and every sample of
    it lies between -1 included and 1 excluded. *)
Theorem decoded_buffer_wellFormed
        (p : Player) (base64Data : string) (rate : Q) (b : AudioBuffer) :
  convertBase64ToAudioBuffer p base64Data rate = Normal b ->
  wellFormedBuffer b /\ sampleRate b = rate /\ (0 < duration b)%Q.
Proof.
  intros H. destruct (convert_wellFormed p base64Data rate b H) as [Hw Hr].
  split; [exact Hw|]. split; [exact Hr|].
  apply (validBuffer_duration minSampleRate maxSampleRate).
  destruct Hw as (_ & Hl & _ & Hs & _). now split.
Qed.

Lemma convert_success (p : Player) (ctx : AudioContext) (base64Data : string) (rate : Q)
      (payload : list Z) :
  audioContext p = Some ctx ->
  Platform.atob base64Data = Normal payload ->
  Nat.even (List.length payload) = true ->
  payload <> [] ->
  supportedSampleRate rate = true ->
  exists b, convertBase64ToAudioBuffer p base64Data rate = Normal b.
Proof.
  intros Hc Ha He Hne Hr.
  set (samples := map (fun s => inject_Z s / 32768)%Q
                      (Platform.int16Elements (map Platform.toUint8 payload))).
  assert (Hpos : (1 <= List.length samples)%nat).
  { subst samples. rewrite length_map, int16Elements_length, length_map.
    destruct payload as [|a [|b l]]; [congruence|discriminate|].
    rewrite half_length_SS. lia. }
  exists (mkAudioBuffer 1 (List.length samples) rate samples).
  unfold convertBase64ToAudioBuffer. rewrite Hc, Ha. unfold bind at 1.
  unfold Platform.newInt16Array. rewrite length_map, He.
  unfold bind at 1. fold samples. unfold createBuffer.
  rewrite Hr. apply Nat.leb_le in Hpos. rewrite Hpos. cbn [Nat.leb andb].
  unfold bind at 1. cbn [channelData numberOfChannels bufLength sampleRate].
  now rewrite typedArraySet_silent.
Qed.

(** X2.  The decoder returns a buffer exactly when the audio context exists,
    the data is valid base64, its payload is a whole number of 16-bit
    samples and not empty, and the device supports the rate; in every
    other case it throws. *)
Theorem decoder_succeeds_iff (p : Player) (base64Data : string) (rate : Q) :
  (exists b, convertBase64ToAudioBuffer p base64Data rate = Normal b) <->
  (audioContext p <> None /\
   exists payload,
     Platform.atob base64Data = Normal payload /\
     Nat.even (List.length payload) = true /\
     payload <> [] /\
     supportedSampleRate rate = true).
Proof.
  split.
  - intros [b H].
    destruct (convert_inversion _ _ _ _ _ _ H) as (payload & Ha & He & _ & Hl & Hr).
    split.
    + intros Hc. unfold convertBase64ToAudioBuffer in H. now rewrite Hc in H.
    + exists payload. repeat split; try assumption.
      intros ->. simpl in Hl. lia.
  - intros [Hc (payload & Ha & He & Hne & Hr)].
    destruct (audioContext p) as [ctx|] eqn:E; [|congruence].
    exact (convert_success p ctx base64Data rate payload E Ha He Hne Hr).
Qed.

(** ** addChunk *)

(** X3.  [addChunk] never starts anything: whether it succeeds or throws, the
    state, the sources in flight, [nextStartTime], the device and the
    listeners are as before and no event is dispatched.  It throws exactly
    when it leaves the queue alone; otherwise the queue has grown by one
    well-formed buffer at its end. *)
Theorem addChunk_only_enqueues (p : Player) (base64Data : string) (rate : Q) :
  let o := addChunk base64Data rate p in
  internalState (after o) = internalState p /\
  scheduledBufferSources (after o) = scheduledBufferSources p /\
  nextStartTime (after o) = nextStartTime p /\
  audioContext (after o) = audioContext p /\
  eventTarget (after o) = eventTarget p /\
  dispatched o = 0%nat /\
  ((thrown o <> None /\ after o = p) \/
   (thrown o = None /\
    exists b, audioBufferQueue (after o) = audioBufferQueue p ++ [b] /\
              wellFormedBuffer b /\ sampleRate b = rate)).
Proof.
  intros o. subst o.
  destruct (addChunk_keeps minSampleRate maxSampleRate base64Data rate p)
    as (E1 & E2 & E3 & E4 & E5 & _).
  repeat (split; [assumption|]).
  unfold addChunk.
  destruct (PlayerState_eqb (internalState p) resetting).
  - split; [reflexivity|]. left. split; [discriminate|reflexivity].
  - destruct (convertBase64ToAudioBuffer p base64Data rate) as [b|e] eqn:E.
    + split; [reflexivity|]. right. split; [reflexivity|]. exists b.
      split; [reflexivity|].
      destruct (convert_wellFormed p base64Data rate b E) as (H1 & H2).
      now split.
    + split; [reflexivity|]. left. split; [discriminate|reflexivity].
Qed.


(** ** The drain pass, once more *)

Lemma plan_not_in_the_past (id : nat) (next now : Q) (q : list AudioBuffer) :
  Forall (fun s => (now <= startTime s)%Q) (plan id next now q).
Proof.
  revert id next. induction q as [|b r IH]; intros id next; simpl; constructor.
  - simpl. apply Qmax_ge_r.
  - apply IH.
Qed.

Lemma plan_last (id : nat) (next now : Q) (b : AudioBuffer) (r : list AudioBuffer) :
  exists front s,
    plan id next now (b :: r) = front ++ [s] /\
    planEnd next now (b :: r) = (startTime s + duration (buffer s))%Q.
Proof.
  revert id next b. induction r as [|b2 r IH]; intros id next b.
  - exists [], (mkSourceNode id b (Qmax next now)). split; reflexivity.
  - destruct (IH (S id) (Qmax next now + duration b)%Q b2) as (front & s & E1 & E2).
    exists (mkSourceNode id b (Qmax next now) :: front), s. split.
    + cbn [plan]. cbn [plan] in E1. rewrite E1. reflexivity.
    + cbn [planEnd]. cbn [planEnd] in E2. exact E2.
Qed.

(** X5.  One call of the scheduler on a playing player submits the whole queue
    in order and empties it; no source starts before the current device
    time; the first starts at [nextStartTime] unless that is already
    past, and [nextStartTime] ends up at the end of the last one. *)
Theorem scheduler_drains_queue (p : Player) (ctx : AudioContext) :
  audioContext p = Some ctx ->
  internalState p = playing ->
  let p' := scheduleNextBufferSource p in
  exists new,
    scheduledBufferSources p' = scheduledBufferSources p ++ new /\
    map buffer new = audioBufferQueue p /\
    audioBufferQueue p' = [] /\
    Forall (fun s => (currentTime ctx <= startTime s)%Q) new /\
    (forall s rest, new = s :: rest ->
       startTime s = Qmax (nextStartTime p) (currentTime ctx)) /\
    (audioBufferQueue p <> [] ->
     exists front s, new = front ++ [s] /\
       nextStartTime p' = (startTime s + duration (buffer s))%Q) /\
    internalState p' = playing /\ audioContext p' = Some ctx /\
    eventTarget p' = eventTarget p.
Proof.
  intros Hc Hs p'. subst p'. unfold scheduleNextBufferSource.
  rewrite (scheduleLoop_plan (audioBufferQueue p) p ctx Hc Hs eq_refl).
  cbn [scheduledBufferSources audioBufferQueue nextStartTime internalState
       audioContext eventTarget].
  exists (plan (nodeCount p) (nextStartTime p) (currentTime ctx) (audioBufferQueue p)).
  split; [reflexivity|]. split; [apply plan_buffers|]. split; [reflexivity|].
  split; [apply plan_not_in_the_past|]. split; [|split; [|repeat split]].
  - intros s rest E. destruct (audioBufferQueue p); [discriminate|].
    simpl in E. now injection E as <- _.
  - intros Hq. destruct (audioBufferQueue p) as [|b r]; [congruence|].
    apply plan_last.
Qed.

(** ** What every reachable player satisfies *)

Lemma resumeContext_running (ctx : AudioContext) :
  ctxState (resumeContext ctx) = running.
Proof. unfold resumeContext. now destruct (ctxState ctx) eqn:E. Qed.

Lemma suspendContext_suspended (ctx : AudioContext) :
  ctxState (suspendContext ctx) = suspended.
Proof. unfold suspendContext. now destruct (ctxState ctx) eqn:E. Qed.

Lemma scheduleNextBufferSource_coherent (p : Player) :
  coherent p -> coherent (scheduleNextBufferSource p).
Proof.
  intros H.
  destruct (scheduleNextBufferSource_cases p) as [E|(ctx & Hc & Hs & _ & E)]; rewrite E;
    [exact H|].
  destruct H as ((ctx' & Hc' & Hrun & _) & _).
  assert (ctx' = ctx) by congruence. subst ctx'.
  split; [|split; simpl; discriminate].
  exists ctx. simpl. split; [reflexivity|]. split; [auto|discriminate].
Qed.

Lemma step_coherent (e : Event) (p : Player) :
  coherent p -> coherent (after (step e p)).
Proof.
  intros H. assert (H' := H). destruct H' as ((ctx & Hc & Hrun & Hsus) & Hend & Hidle).
  destruct e; simpl.
  - destruct (addChunk_keeps minSampleRate maxSampleRate base64Data rate p)
      as (E1 & E2 & E3 & _ & E5 & _).
    unfold coherent. rewrite E1, E2, E3, E5. exact H.
  - destruct (PlayerState_eqb_spec (internalState p) playing) as [Hs|Hs].
    + unfold play. rewrite Hc, Hs. exact H.
    + assert (Hgoal : coherent (setAudioContext (Some (resumeContext ctx))
                                                (setInternalState playing p))).
      { split; [|split; simpl; discriminate].
        exists (resumeContext ctx). simpl. split; [reflexivity|].
        split; [intros _; apply resumeContext_running|discriminate]. }
      unfold play. rewrite Hc, (PlayerState_eqb_neq _ _ Hs).
      cbn [scheduledBufferSources audioBufferQueue setAudioContext setInternalState].
      destruct (scheduledBufferSources p) eqn:Hl; [|exact Hgoal].
      destruct (audioBufferQueue p) eqn:Hq; [exact Hgoal|].
      cbn [after done]. apply scheduleNextBufferSource_coherent.
      split; [|split; simpl; discriminate].
      exists (resumeContext ctx). simpl. split; [reflexivity|].
      split; [intros _; apply resumeContext_running|discriminate].
  - unfold pause. destruct (PlayerState_eqb_spec (internalState p) playing) as [Hs|Hs];
      simpl; [|exact H].
    rewrite Hc. simpl. split; [|split; simpl; discriminate].
    exists (suspendContext ctx). simpl. split; [reflexivity|].
    split; [discriminate|intros _; apply suspendContext_suspended].
  - split; [|split; simpl; discriminate].
    exists ctx. simpl. split; [exact Hc|]. split; discriminate.
  - split; [|split; simpl; [discriminate|reflexivity]].
    eexists. simpl. split; [reflexivity|]. split; discriminate.
  - exact H.
  - exact H.
  - unfold onended.
    destruct (PlayerState_eqb (internalState p) resetting); [exact H|].
    set (p1 := match indexOf id (scheduledBufferSources p) with
               | Some index =>
                   setScheduledBufferSources (splice1 index (scheduledBufferSources p)) p
               | None => p
               end).
    assert (H1 : coherent p1).
    { subst p1. destruct (indexOf id (scheduledBufferSources p)) as [i|] eqn:Ei; [|exact H].
      split; [|split].
      - exists ctx. simpl. auto.
      - simpl. intros Hs. rewrite (Hend Hs) in Ei. discriminate.
      - exact Hidle. }
    destruct (scheduledBufferSources p1) eqn:Hl, (audioBufferQueue p1) eqn:Hq;
      cbn [after done].
    + unfold dispatchEnded. simpl.
      destruct H1 as ((ctx1 & Hc1 & _) & _).
      split; [|split; simpl; [intros _; exact Hl|discriminate]].
      exists ctx1. simpl. split; [exact Hc1|]. split; discriminate.
    + now apply scheduleNextBufferSource_coherent.
    + exact H1.
    + now apply scheduleNextBufferSource_coherent.
  - change (coherent (advance n d p)).
    destruct (advance_keeps n d p) as (E1 & E2 & _ & E4 & _).
    unfold coherent. rewrite E1, E2, E4. split; [|now split].
    unfold advance. rewrite Hc. destruct (ctxState ctx) eqn:Ec.
    + exists ctx. rewrite Ec. auto.
    + eexists. simpl. split; [reflexivity|]. simpl. split; [intros _; reflexivity|].
      intros Hs. discriminate (Hsus Hs).
Qed.

Lemma run_coherent (evs : list Event) (p : Player) : coherent p -> coherent (run evs p).
Proof.
  revert p. induction evs as [|e evs IH]; intros p H; simpl; [exact H|].
  apply IH, step_coherent, H.
Qed.

Lemma reachable_coherent (p : Player) : reachable p -> coherent p.
Proof.
  intros (fresh & evs & _ & ->). apply run_coherent.
  split; [|split; simpl; [discriminate|reflexivity]].
  eexists. simpl. split; [reflexivity|]. split; discriminate.
Qed.

(** X6.  A player always has its audio context, so that [play()] and [pause()]
    never reject and the decoder never fails for want of a context. *)
Theorem context_always_present (p : Player) (base64Data : string) (rate : Q) :
  reachable p ->
  audioContext p <> None /\
  thrown (play p) = None /\
  thrown (pause p) = None /\
  convertBase64ToAudioBuffer p base64Data rate <> Throw (Error msgNoContext).
Proof.
  intros Hr. destruct (reachable_coherent p Hr) as ((ctx & Hc & _) & _).
  split; [congruence|]. split; [|split].
  - unfold play. rewrite Hc.
    destruct (PlayerState_eqb (internalState p) playing); [reflexivity|].
    cbn [scheduledBufferSources audioBufferQueue setAudioContext setInternalState].
    destruct (scheduledBufferSources p); [|reflexivity].
    now destruct (audioBufferQueue p).
  - unfold pause. destruct (negb (PlayerState_eqb (internalState p) playing));
      [reflexivity|]. now rewrite Hc.
  - unfold convertBase64ToAudioBuffer. rewrite Hc. unfold Platform.atob.
    destruct (Nat.modulo _ 4 =? 1)%nat; [simpl; discriminate|].
    destruct (Platform.sextets _); [|simpl; discriminate].
    unfold bind at 1. unfold Platform.newInt16Array.
    destruct (Nat.even _); [|simpl; discriminate].
    unfold bind at 1. unfold createBuffer.
    destruct (_ && supportedSampleRate rate); [|simpl; discriminate].
    unfold bind at 1. cbn [channelData]. unfold Platform.typedArraySet.
    destruct (_ <? _)%nat; simpl; discriminate.
Qed.

(** ** pause and play *)


(** ** Errors of addChunk *)

(** The four exceptions the decoder can throw. *)
Lemma convert_throws (p : Player) (base64Data : string) (rate : Q) (e : Thrown) :
  convertBase64ToAudioBuffer p base64Data rate = Throw e ->
  e = Error msgNoContext \/ e = DOMException "InvalidCharacterError" \/
  e = RangeError \/ e = DOMException "NotSupportedError".
Proof.
  unfold convertBase64ToAudioBuffer.
  destruct (audioContext p); [|intros [= <-]; now left].
  unfold Platform.atob.
  destruct (Nat.modulo _ 4 =? 1)%nat; [simpl; intros [= <-]; now right; left|].
  destruct (Platform.sextets _); [|simpl; intros [= <-]; now right; left].
  unfold bind at 1. unfold Platform.newInt16Array.
  destruct (Nat.even _); [|simpl; intros [= <-]; now right; right; left].
  unfold bind at 1. unfold createBuffer.
  destruct (_ && supportedSampleRate rate);
    [|simpl; intros [= <-]; now right; right; right].
  unfold bind at 1. cbn [channelData]. rewrite typedArraySet_silent. discriminate.
Qed.

Lemma addChunk_rejected (p : Player) (base64Data : string) (rate : Q) (e : Thrown) :
  thrown (addChunk base64Data rate p) = Some e ->
  after (addChunk base64Data rate p) = p /\
  ((internalState p = resetting /\ e = Error msgResetting) \/
   (internalState p <> resetting /\
    convertBase64ToAudioBuffer p base64Data rate = Throw e)).
Proof.
  unfold addChunk.
  destruct (PlayerState_eqb_spec (internalState p) resetting) as [Hs|Hs].
  - simpl. intros [= <-]. split; [reflexivity|]. now left.
  - destruct (convertBase64ToAudioBuffer p base64Data rate) as [b|e'] eqn:E;
      [discriminate|].
    simpl. intros [= <-]. split; [reflexivity|]. now right.
Qed.

Lemma decoder_error_kind (p : Player) (base64Data : string) (rate : Q) (e : Thrown) :
  convertBase64ToAudioBuffer p base64Data rate = Throw e ->
  addChunkErrorKind e = DecodeError.
Proof.
  intros E. destruct (convert_throws _ _ _ _ E) as [-> | [-> | [-> | ->]]]; reflexivity.
Qed.

(** X4.  A rejected [addChunk] leaves the player as it was, and the kind of
    its error tells why: [InvalidStateError] exactly when the player was
    resetting, [DecodeError] otherwise. *)
Theorem addChunk_error_kinds (p : Player) (base64Data : string) (rate : Q) (e : Thrown) :
  thrown (addChunk base64Data rate p) = Some e ->
  after (addChunk base64Data rate p) = p /\
  (addChunkErrorKind e = InvalidStateError <-> internalState p = resetting) /\
  (addChunkErrorKind e = DecodeError <-> internalState p <> resetting).
Proof.
  intros H. destruct (addChunk_rejected p base64Data rate e H) as [Ha [[Hs ->]|[Hs E]]].
  - split; [exact Ha|]. split; split; auto; try discriminate. congruence.
  - rewrite (decoder_error_kind _ _ _ _ E).
    split; [exact Ha|]. split; split; auto; try discriminate. congruence.
Qed.

End MoreProperties.

(** * The further properties on sample executions *)

Section MoreSamples.

Import Sample.

Lemma decoded_buffer_wellFormed_witness :
  (0 < duration (mkAudioBuffer 1 4 rate16k
                   [0 # 32768; 32767 # 32768; -32768 # 32768; -1 # 32768]%Q))%Q.
Proof.
  exact (proj2 (proj2 (decoded_buffer_wellFormed minRate maxRate (newPlayer running)
                         fourSamples rate16k _ eq_refl))).
Defined.

Lemma decoder_succeeds_iff_witness :
  exists b, convertBase64ToAudioBuffer minRate maxRate (newPlayer running) twoSamples rate16k
            = Normal b.
Proof.
  apply (proj2 (decoder_succeeds_iff minRate maxRate (newPlayer running) twoSamples rate16k)).
  split; [discriminate|].
  exists [0; 0; 255; 127]. repeat split. discriminate.
Defined.

Lemma addChunk_error_kinds_witness :
  after (addChunk minRate maxRate threeBytes rate16k midPlaying) = midPlaying.
Proof.
  exact (proj1 (addChunk_error_kinds minRate maxRate midPlaying threeBytes rate16k
                  RangeError eq_refl)).
Defined.

Lemma scheduler_drains_queue_witness :
  exists new,
    scheduledBufferSources (scheduleNextBufferSource (setInternalState playing threeQueued))
    = new /\ List.length new = 3%nat /\
    audioBufferQueue (scheduleNextBufferSource (setInternalState playing threeQueued)) = [].
Proof.
  destruct (scheduler_drains_queue (setInternalState playing threeQueued)
              (mkAudioContext running 0) eq_refl eq_refl)
    as (new & H1 & H2 & H3 & _).
  exists new. split; [exact H1|]. split; [|exact H3].
  rewrite <- (length_map buffer), H2. reflexivity.
Defined.

Lemma midPlaying_reachable : reachable minRate maxRate midPlaying.
Proof. exists running. eexists. split; [|reflexivity]. reflexivity. Defined.

Lemma context_always_present_witness :
  thrown (play midPlaying) = None /\ thrown (pause midPlaying) = None.
Proof.
  destruct (context_always_present minRate maxRate midPlaying oneSample rate16k
              midPlaying_reachable) as (_ & H1 & H2 & _).
  now split.
Defined.


End MoreSamples.
